(** * shared_sync.c: two children sharing one message slot

    A shallow embedding of [src/shared_sync.c].  The program maps a POSIX
    shared-memory object, initialises a [SharedMessage] record in it and
    forks two children: child 1 writes five messages into the record, child 2
    prints the record five times, and the parent waits for both before it
    removes the object.

    The three processes are modelled as one transition system.  Every process
    runs the code of [main]; its position is a [label] named after the source
    line of the statement it is about to execute.  One [step] runs one
    statement of one process, and a schedule (a list of actors) picks who runs
    next, which gives all interleavings of the statements.  Results of system
    calls (descriptors, process ids, error numbers, the bytes found in the
    region) come from an [env].  Time is not modelled: [usleep] paces a
    process but does not order it against the others. *)

From Stdlib Require Import ZArith String Ascii Strings.Byte Bool Lia List.
From Stdlib Require Import DecimalString.
Import ListNotations.
Open Scope Z_scope.

(** ** Constants and the shared record (lines 21-30) *)

Definition SHM_NAME : string := "/my_shared_memory".
Definition SHM_SIZE : Z := 1024.
Definition MAX_MSG_LEN : nat := 256.

Record SharedMessage : Type := mkSharedMessage {
  message_id : Z;
  text_message : list byte;
  ready : Z
}.

Definition set_message_id (v : Z) (m : SharedMessage) : SharedMessage :=
  mkSharedMessage v (text_message m) (ready m).
Definition set_text_message (t : list byte) (m : SharedMessage) : SharedMessage :=
  mkSharedMessage (message_id m) t (ready m).
Definition set_ready (v : Z) (m : SharedMessage) : SharedMessage :=
  mkSharedMessage (message_id m) (text_message m) v.

(** ** Layout of the record

    [sizeof] follows the usual C layout rule: every member is placed at the
    next multiple of its alignment, and the whole record is padded to a
    multiple of its strictest alignment.  The size of [int] is left to the
    platform. *)

Definition align_up (off a : Z) : Z := ((off + a - 1) / a) * a.

(** A member is given by its size and its alignment. *)
Definition member : Type := (Z * Z)%type.

Definition place (acc : Z * Z) (f : member) : Z * Z :=
  (align_up (fst acc) (snd f) + fst f, Z.max (snd acc) (snd f)).

Definition sizeof_struct (fields : list member) : Z :=
  let acc := fold_left place fields (0, 1) in
  align_up (fst acc) (snd acc).

Definition SharedMessage_members (sizeof_int : Z) : list member :=
  [ (sizeof_int, sizeof_int);            (* int message_id *)
    (Z.of_nat MAX_MSG_LEN, 1);           (* char text_message[MAX_MSG_LEN] *)
    (sizeof_int, sizeof_int) ].          (* int ready *)

Definition sizeof_SharedMessage (sizeof_int : Z) : Z :=
  sizeof_struct (SharedMessage_members sizeof_int).

(** ** The C library functions the program calls on the text buffer *)

(** [memset(buf, c, n)]: the first [n] bytes become [c]. *)
Definition memset (buf : list byte) (c : byte) (n : nat) : list byte :=
  repeat c n ++ skipn n buf.

(** [snprintf(buf, size, ...)] where [out] is the formatted text: at most
    [size - 1] bytes of [out] are stored, followed by a terminating zero;
    the bytes behind the terminator keep their values. *)
Definition snprintf (buf : list byte) (size : nat) (out : list byte) : list byte :=
  match size with
  | O => buf
  | S room =>
      let written := firstn room out ++ [x00] in
      written ++ skipn (length written) buf
  end.

(** Number of bytes [snprintf] stores, terminator included. *)
Definition snprintf_stored (size : nat) (out : list byte) : nat :=
  match size with
  | O => O
  | S room => S (length (firstn room out))
  end.

(** What [%s] prints for a buffer: the bytes before the first zero. *)
Fixpoint c_str (buf : list byte) : list byte :=
  match buf with
  | [] => []
  | b :: rest => if Byte.eqb b x00 then [] else b :: c_str rest
  end.

(** No zero byte in a text. *)
Definition no_zero (l : list byte) : bool :=
  forallb (fun b => negb (Byte.eqb b x00)) l.

(** [%d] *)
Definition format_d (z : Z) : string := NilZero.string_of_int (Z.to_int z).

(** The text of line 114 for iteration [i]. *)
Definition writer_text (i : Z) : list byte :=
  list_byte_of_string
    ("Message from Child 1 (writer), iteration " ++ format_d i).

(** ** Processes *)

Inductive actor : Type := Parent | Child1 | Child2.

Definition actor_eqb (a b : actor) : bool :=
  match a, b with
  | Parent, Parent | Child1, Child1 | Child2, Child2 => true
  | _, _ => false
  end.

(** Program points of [main].  [L105_init], [L105_test] and [L105_incr] are
    the three parts of the [for] header of line 105, likewise for line 143.
    [Exited st] is a process that has called [exit(st)] or returned [st]. *)
Inductive label : Type :=
  | L47 | L48 | L60 | L78 | L79 | L85 | L86 | L87 | L89 | L90 | L91
  | L94 | L96 | L101
  | L103 | L105_init | L105_test | L112 | L113 | L116 | L122 | L105_incr
  | L125 | L126 | L127 | L128
  | L132 | L134 | L139
  | L141 | L143_init | L143_test | L149 | L156 | L143_incr
  | L159 | L167 | L169 | L170
  | L174 | L176 | L177 | L179 | L180 | L183 | L184 | L191 | L193 | L195
  | Exited (status : Z).

(** The local variables of [main], the loop counter, the [errno] of the
    process, and the process id the kernel gave it. *)
Record proc : Type := mkProc {
  pc : label;
  shm_fd : Z;
  shared_mem : Z;
  pid1 : Z;
  pid2 : Z;
  i : Z;
  errno : Z;
  self : Z
}.

Definition goto (l : label) (p : proc) : proc :=
  mkProc l (shm_fd p) (shared_mem p) (pid1 p) (pid2 p) (i p) (errno p) (self p).
Definition set_shm_fd (v : Z) (p : proc) : proc :=
  mkProc (pc p) v (shared_mem p) (pid1 p) (pid2 p) (i p) (errno p) (self p).
Definition set_shared_mem (v : Z) (p : proc) : proc :=
  mkProc (pc p) (shm_fd p) v (pid1 p) (pid2 p) (i p) (errno p) (self p).
Definition set_pid1 (v : Z) (p : proc) : proc :=
  mkProc (pc p) (shm_fd p) (shared_mem p) v (pid2 p) (i p) (errno p) (self p).
Definition set_pid2 (v : Z) (p : proc) : proc :=
  mkProc (pc p) (shm_fd p) (shared_mem p) (pid1 p) v (i p) (errno p) (self p).
Definition set_i (v : Z) (p : proc) : proc :=
  mkProc (pc p) (shm_fd p) (shared_mem p) (pid1 p) (pid2 p) v (errno p) (self p).
Definition set_errno (v : Z) (p : proc) : proc :=
  mkProc (pc p) (shm_fd p) (shared_mem p) (pid1 p) (pid2 p) (i p) v (self p).
Definition set_self (v : Z) (p : proc) : proc :=
  mkProc (pc p) (shm_fd p) (shared_mem p) (pid1 p) (pid2 p) (i p) (errno p) v.

Definition exited (p : proc) : bool :=
  match pc p with Exited _ => true | _ => false end.

(** ** The environment: what the system calls return *)

Inductive outcome (A : Type) : Type :=
  | Ok (v : A)
  | Err (errno : Z).
Arguments Ok {A} v.
Arguments Err {A} errno.

Record env : Type := mkEnv {
  e_pid : Z;                       (* process id of the parent *)
  e_shm_open : outcome N;          (* the new descriptor *)
  e_ftruncate : outcome unit;
  e_mmap : outcome N;              (* the address of the mapping *)
  e_fork1 : outcome positive;      (* process id of child 1 *)
  e_fork2 : outcome positive;      (* process id of child 2 *)
  e_region : SharedMessage         (* the bytes found in the region *)
}.

(** Return values as the C code sees them: [-1] on failure. *)
Definition ret_N (r : outcome N) : Z :=
  match r with Ok v => Z.of_N v | Err _ => -1 end.
Definition ret_unit (r : outcome unit) : Z :=
  match r with Ok _ => 0 | Err _ => -1 end.
Definition ret_pid (r : outcome positive) : Z :=
  match r with Ok v => Z.pos v | Err _ => -1 end.
Definition errno_of {A} (r : outcome A) : Z :=
  match r with Ok _ => 0 | Err n => n end.
Definition MAP_FAILED : Z := -1.

(** ** Observable events

    Stores and loads of the shared record carry the value moved and the value
    the [ready] flag had at that instant. *)

Inductive field : Type := F_message_id | F_text_message | F_ready.

Inductive arg : Type :=
  | AInt (z : Z)
  | AStr (s : list byte)
  | APtr (p : Z).

Inductive event : Type :=
  | Store (a : actor) (f : field) (v : arg) (flag : Z)
  | Load (a : actor) (f : field) (v : arg) (flag : Z)
  | Printf (a : actor) (fmt : string) (args : list arg)
  | Perror (a : actor) (s : string) (errno : Z)
  | Usleep (a : actor) (usec : Z)
  | Exit (a : actor) (status : Z).

(** ** The system *)

Inductive object_state : Type := NotCreated | Linked | Unlinked.

Record system : Type := mkSystem {
  parent : proc;
  child1 : option proc;
  child2 : option proc;
  shm : SharedMessage;
  shm_object : object_state;
  log : list event
}.

Definition proc_of (a : actor) (s : system) : option proc :=
  match a with
  | Parent => Some (parent s)
  | Child1 => child1 s
  | Child2 => child2 s
  end.

Definition set_proc (a : actor) (p : proc) (s : system) : system :=
  match a with
  | Parent => mkSystem p (child1 s) (child2 s) (shm s) (shm_object s) (log s)
  | Child1 => mkSystem (parent s) (Some p) (child2 s) (shm s) (shm_object s) (log s)
  | Child2 => mkSystem (parent s) (child1 s) (Some p) (shm s) (shm_object s) (log s)
  end.

Definition set_shm (m : SharedMessage) (s : system) : system :=
  mkSystem (parent s) (child1 s) (child2 s) m (shm_object s) (log s).
Definition set_object (o : object_state) (s : system) : system :=
  mkSystem (parent s) (child1 s) (child2 s) (shm s) o (log s).
Definition emit (evs : list event) (s : system) : system :=
  mkSystem (parent s) (child1 s) (child2 s) (shm s) (shm_object s) (log s ++ evs).
Definition spawn1 (c : proc) (s : system) : system :=
  mkSystem (parent s) (Some c) (child2 s) (shm s) (shm_object s) (log s).
Definition spawn2 (c : proc) (s : system) : system :=
  mkSystem (parent s) (child1 s) (Some c) (shm s) (shm_object s) (log s).

(** [waitpid(pid, NULL, 0)] blocks while a child with that process id is
    still running. *)
Definition running (pid : Z) (c : option proc) : bool :=
  match c with
  | Some p => (self p =? pid) && negb (exited p)
  | None => false
  end.

Definition initial_proc (e : env) : proc :=
  mkProc L47 0 0 0 0 0 0 (e_pid e).

Definition initial (e : env) : system :=
  mkSystem (initial_proc e) None None (e_region e) NotCreated [].

(** ** One statement of [main]

    [step e a s] runs the statement process [a] is at.  It is [None] when [a]
    does not exist, has exited, or is blocked in [waitpid].  The values of
    [i] stay between 1 and 6 ([count_inv] below), so [100 + i] and [i + 1]
    are written without overflow.  [fork] gives the caller the new process
    id and creates a copy of the caller that sees 0; the copy made at line 94
    is [Child1], the one made at line 132 is [Child2].  Only the parent ever
    reaches the two forks ([control_inv] below).  [munmap], [close] and
    [usleep] do not change the state of the model; their results are not
    looked at by the program. *)

Definition fail (a : actor) (what : string) (p : proc) (s : system) : system :=
  emit [Perror a what (errno p); Exit a 1] (set_proc a (goto (Exited 1) p) s).

Definition step (e : env) (a : actor) (s : system) : option system :=
  match proc_of a s with
  | None => None
  | Some p =>
    let m := shm s in
    let next (l : label) := set_proc a (goto l p) s in
    match pc p with
    (* shm_fd = shm_open(SHM_NAME, O_CREAT | O_RDWR, 0666); *)
    | L47 =>
        match e_shm_open e with
        | Ok fd => Some (set_object Linked
                           (set_proc a (goto L48 (set_shm_fd (Z.of_N fd) p)) s))
        | Err n => Some (set_proc a
                           (goto L48 (set_errno n (set_shm_fd (-1) p))) s)
        end
    (* if (shm_fd == -1) { perror("shm_open"); exit(1); } *)
    | L48 =>
        if shm_fd p =? -1 then Some (fail a "shm_open" p s) else Some (next L60)
    (* if (ftruncate(shm_fd, SHM_SIZE) == -1) { perror("ftruncate"); exit(1); } *)
    | L60 =>
        match e_ftruncate e with
        | Ok _ => Some (next L78)
        | Err n => Some (fail a "ftruncate" (set_errno n p) s)
        end
    (* shared_mem = mmap(NULL, SHM_SIZE, ..., MAP_SHARED, shm_fd, 0); *)
    | L78 =>
        match e_mmap e with
        | Ok addr => Some (set_proc a
                             (goto L79 (set_shared_mem (Z.of_N addr) p)) s)
        | Err n => Some (set_proc a
                           (goto L79 (set_errno n (set_shared_mem MAP_FAILED p))) s)
        end
    (* if (shared_mem == MAP_FAILED) { perror("mmap"); exit(1); } *)
    | L79 =>
        if shared_mem p =? MAP_FAILED then Some (fail a "mmap" p s)
        else Some (next L85)
    (* shared_mem->message_id = 0; *)
    | L85 =>
        Some (emit [Store a F_message_id (AInt 0) (ready m)]
                (set_shm (set_message_id 0 m) (next L86)))
    (* shared_mem->ready = 0; *)
    | L86 =>
        Some (emit [Store a F_ready (AInt 0) (ready m)]
                (set_shm (set_ready 0 m) (next L87)))
    (* memset(shared_mem->text_message, 0, MAX_MSG_LEN); *)
    | L87 =>
        let t := memset (text_message m) x00 MAX_MSG_LEN in
        Some (emit [Store a F_text_message (AStr (c_str t)) (ready m)]
                (set_shm (set_text_message t m) (next L89)))
    | L89 =>
        Some (emit [Printf a "Parent: Created shared memory object '%s' (fd: %d)\n"
                      [AStr (list_byte_of_string SHM_NAME); AInt (shm_fd p)]]
                (next L90))
    | L90 =>
        Some (emit [Printf a "Parent: Mapped at address %p\n" [APtr (shared_mem p)]]
                (next L91))
    | L91 =>
        Some (emit [Printf a "Parent: Using ready flag for synchronization\n\n" []]
                (next L94))
    (* pid1 = fork(); the child is a copy that sees 0 *)
    | L94 =>
        match e_fork1 e with
        | Ok c =>
            Some (spawn1 (set_self (Z.pos c) (goto L96 (set_pid1 0 p)))
                    (set_proc a (goto L96 (set_pid1 (Z.pos c) p)) s))
        | Err n =>
            Some (set_proc a (goto L96 (set_errno n (set_pid1 (-1) p))) s)
        end
    (* if (pid1 < 0) { perror("fork"); exit(1); } *)
    | L96 =>
        if pid1 p <? 0 then Some (fail a "fork" p s) else Some (next L101)
    (* if (pid1 == 0) { ... writer ... } *)
    | L101 =>
        if pid1 p =? 0 then Some (next L103) else Some (next L132)
    | L103 =>
        Some (emit [Printf a "Child 1 (PID %d): Started as WRITER\n" [AInt (self p)]]
                (next L105_init))
    (* for (int i = 1; i <= 5; i++) *)
    | L105_init => Some (set_proc a (goto L105_test (set_i 1 p)) s)
    | L105_test => if i p <=? 5 then Some (next L112) else Some (next L125)
    (* shared_mem->message_id = 100 + i; *)
    | L112 =>
        Some (emit [Store a F_message_id (AInt (100 + i p)) (ready m)]
                (set_shm (set_message_id (100 + i p) m) (next L113)))
    (* snprintf(shared_mem->text_message, MAX_MSG_LEN, "...iteration %d", i); *)
    | L113 =>
        let t := snprintf (text_message m) MAX_MSG_LEN (writer_text (i p)) in
        Some (emit [Store a F_text_message (AStr (c_str t)) (ready m)]
                (set_shm (set_text_message t m) (next L116)))
    (* printf("Child 1: WROTE ...", shared_mem->message_id, shared_mem->text_message); *)
    | L116 =>
        Some (emit [Load a F_message_id (AInt (message_id m)) (ready m);
                    Load a F_text_message (AStr (c_str (text_message m))) (ready m);
                    Printf a "Child 1: WROTE message ID %d: '%s'\n"
                      [AInt (message_id m); AStr (c_str (text_message m))]]
                (next L122))
    (* usleep(100000); *)
    | L122 => Some (emit [Usleep a 100000] (next L105_incr))
    | L105_incr => Some (set_proc a (goto L105_test (set_i (i p + 1) p)) s)
    | L125 => Some (emit [Printf a "Child 1: Finished writing\n" []] (next L126))
    (* munmap(shared_mem, SHM_SIZE); close(shm_fd); exit(0); *)
    | L126 => Some (next L127)
    | L127 => Some (next L128)
    | L128 => Some (emit [Exit a 0] (next (Exited 0)))
    (* pid2 = fork(); *)
    | L132 =>
        match e_fork2 e with
        | Ok c =>
            Some (spawn2 (set_self (Z.pos c) (goto L134 (set_pid2 0 p)))
                    (set_proc a (goto L134 (set_pid2 (Z.pos c) p)) s))
        | Err n =>
            Some (set_proc a (goto L134 (set_errno n (set_pid2 (-1) p))) s)
        end
    (* if (pid2 < 0) { perror("fork"); exit(1); } *)
    | L134 =>
        if pid2 p <? 0 then Some (fail a "fork" p s) else Some (next L139)
    (* if (pid2 == 0) { ... reader ... } *)
    | L139 =>
        if pid2 p =? 0 then Some (next L141) else Some (next L174)
    | L141 =>
        Some (emit [Printf a "Child 2 (PID %d): Started as READER\n" [AInt (self p)]]
                (next L143_init))
    (* for (int i = 1; i <= 5; i++) *)
    | L143_init => Some (set_proc a (goto L143_test (set_i 1 p)) s)
    | L143_test => if i p <=? 5 then Some (next L149) else Some (next L159)
    (* printf("Child 2: READ ...", shared_mem->message_id, shared_mem->text_message); *)
    | L149 =>
        Some (emit [Load a F_message_id (AInt (message_id m)) (ready m);
                    Load a F_text_message (AStr (c_str (text_message m))) (ready m);
                    Printf a "Child 2: READ message ID %d: '%s'\n"
                      [AInt (message_id m); AStr (c_str (text_message m))]]
                (next L156))
    (* usleep(100000); *)
    | L156 => Some (emit [Usleep a 100000] (next L143_incr))
    | L143_incr => Some (set_proc a (goto L143_test (set_i (i p + 1) p)) s)
    | L159 => Some (emit [Printf a "Child 2: Finished reading\n" []] (next L167))
    (* munmap(shared_mem, SHM_SIZE); close(shm_fd); exit(0); *)
    | L167 => Some (next L169)
    | L169 => Some (next L170)
    | L170 => Some (emit [Exit a 0] (next (Exited 0)))
    | L174 =>
        Some (emit [Printf a "Parent: Waiting for children to complete...\n" []]
                (next L176))
    (* waitpid(pid1, NULL, 0); *)
    | L176 =>
        if running (pid1 p) (child1 s) || running (pid1 p) (child2 s) then None
        else Some (next L177)
    | L177 =>
        Some (emit [Printf a "Parent: Child 1 (PID %d) completed\n" [AInt (pid1 p)]]
                (next L179))
    (* waitpid(pid2, NULL, 0); *)
    | L179 =>
        if running (pid2 p) (child1 s) || running (pid2 p) (child2 s) then None
        else Some (next L180)
    | L180 =>
        Some (emit [Printf a "Parent: Child 2 (PID %d) completed\n" [AInt (pid2 p)]]
                (next L183))
    (* munmap(shared_mem, SHM_SIZE); close(shm_fd); *)
    | L183 => Some (next L184)
    | L184 => Some (next L191)
    (* shm_unlink(SHM_NAME); *)
    | L191 =>
        Some (set_object (match shm_object s with Linked => Unlinked | o => o end)
                (next L193))
    | L193 =>
        Some (emit [Printf a "Parent: Cleaned up shared memory. Exiting.\n" []]
                (next L195))
    (* return 0; *)
    | L195 => Some (emit [Exit a 0] (next (Exited 0)))
    | Exited _ => None
    end
  end.

(** A run follows a schedule; every scheduled statement has to be enabled. *)
Fixpoint run (e : env) (sched : list actor) (s : system) : option system :=
  match sched with
  | [] => Some s
  | a :: rest =>
      match step e a s with
      | Some s' => run e rest s'
      | None => None
      end
  end.

(** No process can move. *)
Definition terminal (e : env) (s : system) : Prop :=
  forall a, step e a s = None.

Definition terminalb (e : env) (s : system) : bool :=
  match step e Parent s, step e Child1 s, step e Child2 s with
  | None, None, None => true
  | _, _, _ => false
  end.

(** An environment in which every call succeeds, and one in which [mmap]
    fails with error number 12.  The region is found with stale contents:
    id 77, a text of 256 bytes ['x'] and [ready = 1]. *)
Definition stale_region : SharedMessage :=
  mkSharedMessage 77 (repeat x78 MAX_MSG_LEN) 1.

Definition env0 : env :=
  mkEnv 1000 (Ok 3%N) (Ok tt) (Ok 4096%N) (Ok 1001%positive) (Ok 1002%positive)
    stale_region.

Definition env_mmap_fails : env :=
  mkEnv 1000 (Ok 3%N) (Ok tt) (Err 12) (Ok 1001%positive) (Ok 1002%positive)
    stale_region.

(** ** Shape of the control flow

    [stage] numbers the statements the parent passes through, in order.  An
    exit with a nonzero status gets its own number, past the end. *)

Definition stage (l : label) : nat :=
  match l with
  | L47 => 0 | L48 => 1 | L60 => 2 | L78 => 3 | L79 => 4 | L85 => 5
  | L86 => 6 | L87 => 7 | L89 => 8 | L90 => 9 | L91 => 10 | L94 => 11
  | L96 => 12 | L101 => 13 | L132 => 14 | L134 => 15 | L139 => 16
  | L174 => 17 | L176 => 18 | L177 => 19 | L179 => 20 | L180 => 21
  | L183 => 22 | L184 => 23 | L191 => 24 | L193 => 25 | L195 => 26
  | Exited st => if (st =? 0)%Z then 27 else 28
  | _ => 99
  end%nat.

Definition between (lo hi : nat) (l : label) : bool :=
  ((lo <=? stage l) && (stage l <=? hi))%nat.

(** The statements child 1 and child 2 can be at. *)
Definition writer_line (l : label) : bool :=
  match l with
  | L96 | L101 | L103 | L105_init | L105_test | L112 | L113 | L116 | L122
  | L105_incr | L125 | L126 | L127 | L128 => true
  | Exited st => st =? 0
  | _ => false
  end.

Definition reader_line (l : label) : bool :=
  match l with
  | L134 | L139 | L141 | L143_init | L143_test | L149 | L156 | L143_incr
  | L159 | L167 | L169 | L170 => true
  | Exited st => st =? 0
  | _ => false
  end.

Definition is_ok {A} (r : outcome A) : bool :=
  match r with Ok _ => true | Err _ => false end.

Definition is_some {A} (o : option A) : bool :=
  match o with Some _ => true | None => false end.

Definition has_exited (o : option proc) : bool :=
  match o with Some c => exited c | None => false end.

Record control_inv (e : env) (s : system) : Prop := {
  ci_main : between 0 28 (pc (parent s)) = true;
  ci_fd : between 1 27 (pc (parent s)) = true ->
          shm_fd (parent s) = ret_N (e_shm_open e);
  ci_fd_errno : between 1 1 (pc (parent s)) = true ->
          forall n, e_shm_open e = Err n -> errno (parent s) = n;
  ci_open : between 2 27 (pc (parent s)) = true -> is_ok (e_shm_open e) = true;
  ci_trunc : between 3 27 (pc (parent s)) = true -> is_ok (e_ftruncate e) = true;
  ci_mem : between 4 27 (pc (parent s)) = true ->
          shared_mem (parent s) = ret_N (e_mmap e);
  ci_mem_errno : between 4 4 (pc (parent s)) = true ->
          forall n, e_mmap e = Err n -> errno (parent s) = n;
  ci_map : between 5 27 (pc (parent s)) = true -> is_ok (e_mmap e) = true;
  ci_pid1 : between 12 27 (pc (parent s)) = true ->
          pid1 (parent s) = ret_pid (e_fork1 e);
  ci_pid1_errno : between 12 12 (pc (parent s)) = true ->
          forall n, e_fork1 e = Err n -> errno (parent s) = n;
  ci_fork1 : between 13 27 (pc (parent s)) = true -> is_ok (e_fork1 e) = true;
  ci_pid2 : between 15 27 (pc (parent s)) = true ->
          pid2 (parent s) = ret_pid (e_fork2 e);
  ci_pid2_errno : between 15 15 (pc (parent s)) = true ->
          forall n, e_fork2 e = Err n -> errno (parent s) = n;
  ci_fork2 : between 16 27 (pc (parent s)) = true -> is_ok (e_fork2 e) = true;
  ci_no_child1 : between 0 11 (pc (parent s)) = true -> child1 s = None;
  ci_no_child2 : between 0 14 (pc (parent s)) = true -> child2 s = None;
  ci_order : child1 s = None -> child2 s = None;
  ci_child1 : between 12 27 (pc (parent s)) = true ->
          is_ok (e_fork1 e) = true -> is_some (child1 s) = true;
  ci_child2 : between 15 27 (pc (parent s)) = true ->
          is_ok (e_fork2 e) = true -> is_some (child2 s) = true;
  ci_writer : forall c, child1 s = Some c ->
          writer_line (pc c) = true /\ pid1 c = 0 /\ self c = ret_pid (e_fork1 e);
  ci_reader : forall c, child2 s = Some c ->
          reader_line (pc c) = true /\ pid2 c = 0 /\ self c = ret_pid (e_fork2 e);
  ci_joined1 : between 19 27 (pc (parent s)) = true -> has_exited (child1 s) = true;
  ci_joined2 : between 21 27 (pc (parent s)) = true -> has_exited (child2 s) = true;
  ci_object : shm_object s = Unlinked -> between 25 27 (pc (parent s)) = true
}.

(** ** What the shared record and the log look like *)

(** The record as line 85-87 leave it. *)
Definition empty_slot (e : env) : SharedMessage :=
  mkSharedMessage 0 (memset (text_message (e_region e)) x00 MAX_MSG_LEN) 0.

(** What every event of a run satisfies: the only store to [ready] is the
    parent's, of the value 0, and every access of a child to the record
    happens with [ready = 0]. *)
Definition unsynchronised (ev : event) : Prop :=
  match ev with
  | Store Parent F_ready v _ => v = AInt 0
  | Store Parent _ _ _ => True
  | Store _ f _ flag => f <> F_ready /\ flag = 0
  | Load Parent _ _ _ => True
  | Load _ _ _ flag => flag = 0
  | _ => True
  end.

Record data_inv (e : env) (s : system) : Prop := {
  di_ready_started : is_some (child1 s) = true -> ready (shm s) = 0;
  di_ready : between 7 27 (pc (parent s)) = true -> ready (shm s) = 0;
  di_text : child1 s = None -> between 0 7 (pc (parent s)) = true ->
            text_message (shm s) = text_message (e_region e);
  di_id : child1 s = None -> between 6 7 (pc (parent s)) = true ->
          message_id (shm s) = 0;
  di_empty : child1 s = None -> between 8 11 (pc (parent s)) = true ->
             shm s = empty_slot e;
  di_terminated : is_some (child1 s) = true -> In x00 (text_message (shm s));
  di_log : Forall unsynchronised (log s)
}.

(** ** Counting iterations

    [usleep] is the last statement of both loop bodies, so the number of
    [Usleep] events of an actor is the number of loop bodies it has
    completed. *)

Definition is_usleep_of (a : actor) (ev : event) : bool :=
  match ev with
  | Usleep b _ => actor_eqb a b
  | _ => false
  end.

Definition iterations (a : actor) (l : list event) : nat :=
  length (filter (is_usleep_of a) l).

Definition writer_progress (l : label) (i : Z) (n : nat) : Prop :=
  match l with
  | L96 | L101 | L103 | L105_init => n = 0%nat
  | L105_test => 1 <= i <= 6 /\ Z.of_nat n = i - 1
  | L112 | L113 | L116 | L122 => 1 <= i <= 5 /\ Z.of_nat n = i - 1
  | L105_incr => 1 <= i <= 5 /\ Z.of_nat n = i
  | L125 | L126 | L127 | L128 | Exited _ => n = 5%nat
  | _ => True
  end.

Definition reader_progress (l : label) (i : Z) (n : nat) : Prop :=
  match l with
  | L134 | L139 | L141 | L143_init => n = 0%nat
  | L143_test => 1 <= i <= 6 /\ Z.of_nat n = i - 1
  | L149 | L156 => 1 <= i <= 5 /\ Z.of_nat n = i - 1
  | L143_incr => 1 <= i <= 5 /\ Z.of_nat n = i
  | L159 | L167 | L169 | L170 | Exited _ => n = 5%nat
  | _ => True
  end.

Record count_inv (s : system) : Prop := {
  cn_writer_none : child1 s = None -> iterations Child1 (log s) = 0%nat;
  cn_writer : forall c, child1 s = Some c ->
      writer_progress (pc c) (i c) (iterations Child1 (log s));
  cn_reader_none : child2 s = None -> iterations Child2 (log s) = 0%nat;
  cn_reader : forall c, child2 s = Some c ->
      reader_progress (pc c) (i c) (iterations Child2 (log s))
}.

(** ** A measure that every statement decreases *)

Definition weight (l : label) (i : Z) : nat :=
  match l with
  | Exited _ => 0
  | L195 | L128 | L170 => 1
  | L193 | L127 | L169 => 2
  | L191 | L126 | L167 => 3
  | L184 | L125 | L159 => 4
  | L183 => 5 | L180 => 6 | L179 => 7 | L177 => 8 | L176 => 9 | L174 => 10
  | L105_test | L143_test => 7 * Z.to_nat (6 - i) + 5
  | L105_incr | L143_incr => 7 * Z.to_nat (5 - i) + 7
  | L122 | L156 => 7 * Z.to_nat (5 - i) + 8
  | L116 | L149 => 7 * Z.to_nat (5 - i) + 9
  | L113 => 7 * Z.to_nat (5 - i) + 10
  | L112 => 7 * Z.to_nat (5 - i) + 11
  | L105_init | L143_init => 41
  | L103 | L141 => 42
  | L139 => 43 | L134 => 44 | L132 => 45 | L101 => 46 | L96 => 47
  | L94 => 48 | L91 => 49 | L90 => 50 | L89 => 51 | L87 => 52 | L86 => 53
  | L85 => 54 | L79 => 55 | L78 => 56 | L60 => 57 | L48 => 58 | L47 => 59
  end%nat.

Definition weight_of (unborn : nat) (c : option proc) : nat :=
  match c with
  | Some p => weight (pc p) (i p)
  | None => unborn
  end.

Definition measure (s : system) : nat :=
  (weight (pc (parent s)) (i (parent s))
   + weight_of 47 (child1 s) + weight_of 44 (child2 s))%nat.

(** ** How the parent ends *)

(** The first call of the setup that fails, with its error number. *)
Definition first_failure (e : env) : option (string * Z) :=
  match e_shm_open e with
  | Err n => Some ("shm_open"%string, n)
  | Ok _ =>
  match e_ftruncate e with
  | Err n => Some ("ftruncate"%string, n)
  | Ok _ =>
  match e_mmap e with
  | Err n => Some ("mmap"%string, n)
  | Ok _ =>
  match e_fork1 e with
  | Err n => Some ("fork"%string, n)
  | Ok _ =>
  match e_fork2 e with
  | Err n => Some ("fork"%string, n)
  | Ok _ => None
  end end end end end.

Definition exit_status (p : proc) : option Z :=
  match pc p with Exited st => Some st | _ => None end.

(** The parent has exited the way the environment demands. *)
Definition ended_as (e : env) (st : Z) (l : list event) : Prop :=
  match first_failure e with
  | None => st = 0
  | Some (op, n) => st = 1 /\ In (Perror Parent op n) l
  end.

Definition exit_inv (e : env) (s : system) : Prop :=
  forall st, pc (parent s) = Exited st -> ended_as e st (log s).

(** ** What the reader sees, read off the log *)

Definition reader_ids (l : list event) : list Z :=
  flat_map (fun ev => match ev with
                      | Load Child2 F_message_id (AInt v) _ => [v]
                      | _ => []
                      end) l.

Definition reader_texts (l : list event) : list (list byte) :=
  flat_map (fun ev => match ev with
                      | Load Child2 F_text_message (AStr t) _ => [t]
                      | _ => []
                      end) l.

Definition reader_flags (l : list event) : list Z :=
  flat_map (fun ev => match ev with
                      | Load Child2 F_message_id _ flag => [flag]
                      | _ => []
                      end) l.

Definition writer_ids (l : list event) : list Z :=
  flat_map (fun ev => match ev with
                      | Store Child1 F_message_id (AInt v) _ => [v]
                      | _ => []
                      end) l.

Definition writer_texts (l : list event) : list (list byte) :=
  flat_map (fun ev => match ev with
                      | Store Child1 F_text_message (AStr t) _ => [t]
                      | _ => []
                      end) l.

Definition ready_stores (l : list event) : list (actor * arg) :=
  flat_map (fun ev => match ev with
                      | Store a F_ready v _ => [(a, v)]
                      | _ => []
                      end) l.

Definition is_write (ev : event) : bool :=
  match ev with Store Child1 F_message_id _ _ => true | _ => false end.

Definition is_read (ev : event) : bool :=
  match ev with Load Child2 F_message_id _ _ => true | _ => false end.

(** Positions in the log of the events that satisfy [f]. *)
Fixpoint positions (f : event -> bool) (l : list event) (n : nat) : list nat :=
  match l with
  | [] => []
  | ev :: rest =>
      if f ev then n :: positions f rest (S n) else positions f rest (S n)
  end.

Definition write_times (l : list event) : list nat := positions is_write l 0.
Definition read_times (l : list event) : list nat := positions is_read l 0.

(** Strict alternation as the specification words it: the write of message
    [k] comes before the read of message [k], which comes before the write of
    message [k + 1]. *)
Definition before (x y : option nat) : bool :=
  match x, y with
  | Some a, Some b => (a <? b)%nat
  | _, _ => false
  end.

Definition alternates (l : list event) : bool :=
  forallb (fun k => before (nth_error (write_times l) k) (nth_error (read_times l) k))
          (seq 0 5)
  && forallb (fun k => before (nth_error (read_times l) k)
                              (nth_error (write_times l) (S k)))
          (seq 0 4).

(** ** Schedules of full runs *)

Definition parent_setup : list actor := repeat Parent 18.
Definition parent_join : list actor := repeat Parent 9.
Definition writer_run : list actor := repeat Child1 39.
Definition reader_run : list actor := repeat Child2 29.

(** The reader runs to its end before the writer has written anything. *)
Definition reader_first : list actor :=
  parent_setup ++ reader_run ++ writer_run ++ parent_join.

(** The writer runs to its end before the reader has read anything. *)
Definition writer_first : list actor :=
  parent_setup ++ writer_run ++ reader_run ++ parent_join.

(** The writer has stored the id of its second message, but not yet the
    text, when the reader does all its reads. *)
Definition writer_midway : list actor :=
  parent_setup ++ repeat Child1 12 ++ reader_run ++ repeat Child1 27
  ++ parent_join.

Definition full_run (sched : list actor) : option system :=
  run env0 sched (initial env0).

Definition run_state (e : env) (sched : list actor) : system :=
  match run e sched (initial e) with
  | Some s => s
  | None => initial e
  end.

Definition state_after (sched : list actor) : system := run_state env0 sched.

(** ** All invariants together *)

Record invariant (e : env) (s : system) : Prop := {
  inv_control : control_inv e s;
  inv_data : data_inv e s;
  inv_count : count_inv s;
  inv_exit : exit_inv e s
}.

Definition status_of (c : option proc) : option Z :=
  match c with
  | Some p => exit_status p
  | None => None
  end.

(** ** The record as the writer leaves it, statement by statement

    Message 0 stands for the initialised record: id 0 and the empty text. *)

Definition id_of (k : Z) : Z := if k =? 0 then 0 else 100 + k.

Definition text_of (k : Z) : list byte :=
  if k =? 0 then [] else writer_text k.

(** What the record holds while child 1 is at [l] in iteration [i]. *)
Definition writer_slot (l : label) (i : Z) (m : SharedMessage) : Prop :=
  match l with
  | L96 | L101 | L103 | L105_init =>
      message_id m = 0 /\ c_str (text_message m) = []
  | L105_test | L112 =>
      message_id m = id_of (i - 1) /\ c_str (text_message m) = text_of (i - 1)
  | L113 =>
      message_id m = 100 + i /\ c_str (text_message m) = text_of (i - 1)
  | L116 | L122 | L105_incr =>
      message_id m = 100 + i /\ c_str (text_message m) = writer_text i
  | L125 | L126 | L127 | L128 | Exited _ =>
      message_id m = 105 /\ c_str (text_message m) = writer_text 5
  | _ => True
  end.

(** Number of [WROTE] lines child 1 has printed when it is at [l]. *)
Definition writer_printed (l : label) (i : Z) : Z :=
  match l with
  | L105_test | L112 | L113 | L116 => i - 1
  | L122 | L105_incr => i
  | L125 | L126 | L127 | L128 | Exited _ => 5
  | _ => 0
  end.

(** Number of [READ] lines child 2 has printed when it is at [l]. *)
Definition reader_printed (l : label) (i : Z) : Z :=
  match l with
  | L143_test | L149 => i - 1
  | L156 | L143_incr => i
  | L159 | L167 | L169 | L170 | Exited _ => 5
  | _ => 0
  end.

(** The id and the text of the two-argument [printf] lines of an actor:
    the [WROTE] lines of child 1 and the [READ] lines of child 2. *)
Definition writer_pairs (l : list event) : list (Z * list byte) :=
  flat_map (fun ev => match ev with
                      | Printf Child1 _ [AInt v; AStr t] => [(v, t)]
                      | _ => []
                      end) l.

Definition reader_pairs (l : list event) : list (Z * list byte) :=
  flat_map (fun ev => match ev with
                      | Printf Child2 _ [AInt v; AStr t] => [(v, t)]
                      | _ => []
                      end) l.

(** The first [n] messages, as child 1 prints them. *)
Definition wrote_upto (n : nat) : list (Z * list byte) :=
  map (fun k => (100 + Z.of_nat k, writer_text (Z.of_nat k))) (seq 1 n).

(** A line the reader can print: message [k] as a whole, or the text of
    message [k] under the id of message [k + 1]. *)
Definition observation_ok (p : Z * list byte) : Prop :=
  exists k, 0 <= k <= 5
            /\ snd p = text_of k
            /\ (fst p = id_of k \/ (k < 5 /\ fst p = 100 + (k + 1))).

Fixpoint nondecreasing (l : list Z) : Prop :=
  match l with
  | [] => True
  | x :: rest =>
      match rest with
      | [] => True
      | y :: _ => x <= y /\ nondecreasing rest
      end
  end.

Record slot_inv (s : system) : Prop := {
  sl_fresh : child1 s = None -> writer_pairs (log s) = [];
  sl_slot : forall c, child1 s = Some c -> writer_slot (pc c) (i c) (shm s);
  sl_printed : forall c, child1 s = Some c ->
      writer_pairs (log s) = wrote_upto (Z.to_nat (writer_printed (pc c) (i c)));
  sl_unread : child2 s = None ->
      reader_pairs (log s) = [] /\ reader_ids (log s) = [];
  sl_read : forall c, child2 s = Some c ->
      length (reader_pairs (log s)) = Z.to_nat (reader_printed (pc c) (i c));
  sl_link : map fst (reader_pairs (log s)) = reader_ids (log s);
  sl_seen : Forall observation_ok (reader_pairs (log s));
  sl_ascending : nondecreasing (reader_ids (log s) ++ [message_id (shm s)])
}.

(** ** The shared-memory object and the children over a whole run *)

(** [shm_open], [ftruncate] and [mmap] all succeed. *)
Definition setup_ok (e : env) : bool :=
  is_ok (e_shm_open e) && is_ok (e_ftruncate e) && is_ok (e_mmap e).

(** The state of the object while the parent is at [l]: created by a
    successful [shm_open] at line 47, removed by [shm_unlink] at line 191. *)
Definition expected_object (e : env) (l : label) : object_state :=
  if (stage l =? 0)%nat then NotCreated
  else if between 25 27 l then Unlinked
  else if is_ok (e_shm_open e) then Linked
  else NotCreated.

Record resource_inv (e : env) (s : system) : Prop := {
  rs_object : shm_object s = expected_object e (pc (parent s));
  rs_born1 : is_some (child1 s) = true ->
             setup_ok e = true /\ is_ok (e_fork1 e) = true;
  rs_born2 : is_some (child2 s) = true -> is_ok (e_fork2 e) = true;
  rs_orphan : between 28 28 (pc (parent s)) = true ->
              setup_ok e = true -> is_ok (e_fork1 e) = true ->
              is_some (child1 s) = true;
  rs_untouched : setup_ok e = false -> shm s = e_region e;
  rs_exit1 : has_exited (child1 s) = true -> In (Exit Child1 0) (log s);
  rs_exit2 : has_exited (child2 s) = true -> In (Exit Child2 0) (log s)
}.

(** ** The text buffer over a whole run *)

(** The region holds a text buffer of [MAX_MSG_LEN] bytes. *)
Definition region_wf (e : env) : Prop :=
  length (text_message (e_region e)) = MAX_MSG_LEN.

(** Bytes of the buffer the writer's [snprintf] reaches: the 42 bytes of the
    text and the terminator. *)
Definition WRITER_REACH : nat := 43.

Record buffer_inv (s : system) : Prop := {
  bf_length : length (text_message (shm s)) = MAX_MSG_LEN;
  bf_tail : is_some (child1 s) = true ->
            skipn WRITER_REACH (text_message (shm s))
            = repeat x00 (MAX_MSG_LEN - WRITER_REACH)
}.

(** The five messages as child 1 writes them. *)
Definition five_messages : list (Z * list byte) :=
  map (fun k => (100 + k, writer_text k)) [1; 2; 3; 4; 5].


(** * Proofs *)

(** ** Tactics for the case analysis over the statements *)

Lemma some_eq {A} (x y : A) : Some x = Some y -> x = y.
Proof. congruence. Qed.

Lemma err_eq {A} (x y : Z) : @Err A x = Err y -> x = y.
Proof. congruence. Qed.

Ltac use_premises :=
  repeat match goal with
  | H : false = true |- _ => discriminate H
  | H : true = false |- _ => discriminate H
  | H : Some _ = None |- _ => discriminate H
  | H : None = Some _ |- _ => discriminate H
  | H : Ok _ = Err _ |- _ => discriminate H
  | H : Err _ = Ok _ |- _ => discriminate H
  | H : true = true -> _ |- _ => specialize (H eq_refl)
  | H : false = true -> _ |- _ => clear H
  | H : ?x = ?x -> _ |- _ => specialize (H eq_refl)
  | H : forall c, Some ?d = Some c -> _ |- _ => specialize (H d eq_refl)
  | H : forall c, None = Some c -> _ |- _ => clear H
  | H : forall n, Err ?d = Err n -> _ |- _ => specialize (H d eq_refl)
  | H : forall n, Ok _ = Err n -> _ |- _ => clear H
  | H : _ /\ _ |- _ => destruct H
  | H : Some _ = Some _ |- _ => apply some_eq in H
  | H : Err _ = Err _ |- _ => apply err_eq in H
  end.

Ltac break_step H :=
  repeat (cbv beta iota zeta in H;
  lazymatch type of H with
  | None = Some _ => discriminate H
  | Some _ = Some _ => apply some_eq in H
  | (match ?x with _ => _ end) = _ => destruct x eqn:?
  | (if ?b then _ else _) = _ => destruct b eqn:?
  end).

Ltac reduce_state :=
  cbn [parent child1 child2 shm shm_object log
       pc shm_fd shared_mem pid1 pid2 i errno self
       message_id text_message ready
       e_pid e_shm_open e_ftruncate e_mmap e_fork1 e_fork2 e_region
       proc_of set_proc set_shm set_object emit spawn1 spawn2 fail
       goto set_shm_fd set_shared_mem set_pid1 set_pid2 set_i set_errno set_self
       set_message_id set_text_message set_ready
       stage between writer_line reader_line is_ok is_some has_exited exited
       running ret_N ret_unit ret_pid errno_of
       weight weight_of
       Nat.leb andb orb negb Z.eqb] in *.

Ltac open_state e s :=
  let p := fresh "p" in
  let c1 := fresh "c1" in
  let c2 := fresh "c2" in
  destruct e as [? ? ? ? ? ? ?];
  destruct s as [p c1 c2 ? ? ?];
  destruct p as [? ? ? ? ? ? ? ?];
  destruct c1 as [[? ? ? ? ? ? ? ?]|];
  destruct c2 as [[? ? ? ? ? ? ? ?]|].

Ltac step_cases e s a Hs :=
  open_state e s; unfold step in Hs;
  destruct a; cbn [proc_of parent child1 child2 pc] in Hs; try discriminate Hs;
  match type of Hs with (match ?l with _ => _ end) = _ => destruct l end;
  break_step Hs; subst.

Ltac split_env :=
  repeat match goal with r : outcome _ |- _ => destruct r end.

Ltac compare_to_prop :=
  repeat match goal with
  | H : (_ <=? _) = true |- _ => apply Z.leb_le in H
  | H : (_ <=? _) = false |- _ => apply Z.leb_gt in H
  | H : (_ <? _) = true |- _ => apply Z.ltb_lt in H
  | H : (_ <? _) = false |- _ => apply Z.ltb_ge in H
  | H : (_ =? _) = true |- _ => apply Z.eqb_eq in H
  | H : (_ =? _) = false |- _ => apply Z.eqb_neq in H
  end.

Ltac finish :=
  intros; use_premises; subst; reduce_state; use_premises;
  try solve [ reflexivity | assumption | discriminate | congruence | lia
            | auto | intuition (auto; congruence) ].

Ltac finish_env :=
  split_env; reduce_state; use_premises; compare_to_prop;
  try solve [ reflexivity | assumption | discriminate | congruence | lia ].

(** ** The control-flow invariant *)

Lemma control_inv_initial e : control_inv e (initial e).
Proof. constructor; simpl; intros; try discriminate; auto. Qed.

Lemma waited pid c :
  running pid (Some c) = false -> self c = pid -> exited c = true.
Proof.
  unfold running. intros H <-. rewrite Z.eqb_refl in H.
  destruct (exited c); [reflexivity | discriminate H].
Qed.

Lemma control_inv_step e s a s' :
  control_inv e s -> step e a s = Some s' -> control_inv e s'.
Proof.
  intros HI Hs.
  step_cases e s a Hs.
  all: destruct HI; reduce_state; use_premises.
  all: constructor; reduce_state; finish.
  all: finish_env.
  all: match goal with
       | H : _ || _ = false |- _ => apply orb_false_elim in H as [Ha Hb]
       end.
  all: rewrite ?Pos.eqb_refl in *; cbn [andb] in *.
  all: match goal with |- ?x = true => destruct x; [reflexivity | ] end.
  all: cbn [negb] in *; try discriminate.
Qed.

(** ** The invariant of the shared record *)

Lemma memset_has_zero buf n : In x00 (memset buf x00 (S n)).
Proof. unfold memset. left. reflexivity. Qed.

Lemma snprintf_has_zero buf n out : In x00 (snprintf buf (S n) out).
Proof.
  unfold snprintf. apply in_or_app. left. apply in_or_app. right.
  left. reflexivity.
Qed.

Lemma data_inv_initial e : data_inv e (initial e).
Proof. constructor; simpl; intros; try discriminate; auto. Qed.

Lemma data_inv_step e s a s' :
  control_inv e s -> data_inv e s -> step e a s = Some s' -> data_inv e s'.
Proof.
  intros HC HI Hs.
  step_cases e s a Hs.
  all: destruct HC, HI; reduce_state; use_premises.
  all: constructor; reduce_state; finish.
  all: try (apply Forall_app; split; [assumption | ];
            repeat constructor; reduce_state; finish).
  all: try apply snprintf_has_zero.
  all: try solve [ unfold empty_slot; cbn [text_message];
                   apply memset_has_zero ].
  all: unfold empty_slot, set_text_message; destruct shm0; reduce_state.
  all: subst; reflexivity.
Qed.

(** ** Counting the completed loop bodies *)

Lemma iterations_app a l l' :
  iterations a (l ++ l') = (iterations a l + iterations a l')%nat.
Proof. unfold iterations. rewrite filter_app, length_app. reflexivity. Qed.

Lemma count_inv_initial e : count_inv (initial e).
Proof. constructor; simpl; intros; try discriminate; auto. Qed.

Ltac count_events :=
  rewrite ?iterations_app in *;
  cbn [iterations filter is_usleep_of actor_eqb length] in *;
  cbn [writer_progress reader_progress] in *.

Lemma count_inv_step e s a s' :
  control_inv e s -> count_inv s -> step e a s = Some s' -> count_inv s'.
Proof.
  intros HC HI Hs.
  step_cases e s a Hs.
  all: destruct HC, HI; reduce_state; use_premises.
  all: constructor; reduce_state; intros; use_premises; subst; reduce_state;
       count_events; rewrite ?Nat.add_0_r in *; compare_to_prop; use_premises.
  all: try solve [ assumption | lia | split; lia ].
Qed.

(** ** Every statement decreases the measure *)

Lemma measure_step e s a s' :
  control_inv e s -> step e a s = Some s' -> (measure s' < measure s)%nat.
Proof.
  intros HC Hs.
  step_cases e s a Hs.
  all: destruct HC; reduce_state; use_premises.
  all: unfold measure; reduce_state; compare_to_prop; try lia.
Qed.

(** ** How the parent exits *)

Lemma ended_as_app e st l l' : ended_as e st l -> ended_as e st (l ++ l').
Proof.
  unfold ended_as. destruct (first_failure e) as [[op n]|]; [ | trivial ].
  intros [H1 H2]. split; [ exact H1 | apply in_or_app; left; exact H2 ].
Qed.

Lemma exit_inv_initial e : exit_inv e (initial e).
Proof. intros st H. discriminate H. Qed.

Lemma exit_inv_step e s a s' :
  control_inv e s -> exit_inv e s -> step e a s = Some s' -> exit_inv e s'.
Proof.
  intros HC HI Hs.
  step_cases e s a Hs.
  all: unfold exit_inv in *; reduce_state; intros st Hst.
  all: try discriminate Hst.
  all: try solve [ apply HI; exact Hst | apply ended_as_app; apply HI; exact Hst ].
  all: first [ assert (Hst' : st = 0) by congruence
             | assert (Hst' : st = 1) by congruence ].
  all: clear Hst HI; destruct HC; reduce_state; use_premises.
  all: unfold ended_as, first_failure; reduce_state; split_env; reduce_state;
       use_premises; compare_to_prop; unfold MAP_FAILED in *; subst.
  all: try solve [ reflexivity | lia
                 | split; [ reflexivity | apply in_or_app; right; left; reflexivity ] ].
Qed.

(** ** No process is left waiting for ever *)

Ltac break_none H :=
  repeat (cbv beta iota zeta in H;
  lazymatch type of H with
  | Some _ = None => discriminate H
  | (match ?x with _ => _ end) = _ => destruct x eqn:?
  | (if ?b then _ else _) = _ => destruct b eqn:?
  end).

Lemma no_deadlock e s :
  control_inv e s -> terminal e s ->
  exited (parent s) = true
  /\ (forall c, child1 s = Some c -> exited c = true)
  /\ (forall c, child2 s = Some c -> exited c = true).
Proof.
  intros HC HT.
  assert (H1 : forall c, child1 s = Some c -> exited c = true).
  { intros c Hc. pose proof (HT Child1) as Hs.
    destruct (ci_writer _ _ HC c Hc) as [Hl _].
    unfold step in Hs. cbn [proc_of] in Hs. rewrite Hc in Hs.
    unfold exited. destruct (pc c); try discriminate Hl; try reflexivity.
    all: break_none Hs. }
  assert (H2 : forall c, child2 s = Some c -> exited c = true).
  { intros c Hc. pose proof (HT Child2) as Hs.
    destruct (ci_reader _ _ HC c Hc) as [Hl _].
    unfold step in Hs. cbn [proc_of] in Hs. rewrite Hc in Hs.
    unfold exited. destruct (pc c); try discriminate Hl; try reflexivity.
    all: break_none Hs. }
  split; [ | split; assumption ].
  pose proof (HT Parent) as Hs.
  pose proof (ci_main _ _ HC) as Hm.
  unfold step in Hs. cbn [proc_of] in Hs.
  unfold exited. destruct (pc (parent s)); try discriminate Hm; try reflexivity.
  all: break_none Hs.
  all: exfalso.
  all: destruct (child1 s) as [c1|]; destruct (child2 s) as [c2|].
  all: cbn [running] in *.
  all: try rewrite (H1 c1 eq_refl) in *; try rewrite (H2 c2 eq_refl) in *.
  all: rewrite ?andb_false_r in *; cbn in *; discriminate.
Qed.

(** ** Invariants along a run *)

Lemma invariant_initial e : invariant e (initial e).
Proof.
  constructor.
  - apply control_inv_initial.
  - apply data_inv_initial.
  - apply count_inv_initial.
  - apply exit_inv_initial.
Qed.

Lemma invariant_step e s a s' :
  invariant e s -> step e a s = Some s' -> invariant e s'.
Proof.
  intros [HC HD HN HE] Hs. constructor.
  - exact (control_inv_step e s a s' HC Hs).
  - exact (data_inv_step e s a s' HC HD Hs).
  - exact (count_inv_step e s a s' HC HN Hs).
  - exact (exit_inv_step e s a s' HC HE Hs).
Qed.

Lemma run_invariant e sched :
  forall s s', invariant e s -> run e sched s = Some s' ->
  invariant e s' /\ (length sched + measure s' <= measure s)%nat.
Proof.
  induction sched as [|a rest IH]; intros s s' HI Hr; cbn [run] in Hr.
  - apply some_eq in Hr. subst s'. split; [ exact HI | cbn [length]; lia ].
  - destruct (step e a s) as [s1|] eqn:Hs; [ | discriminate Hr ].
    destruct (IH s1 s' (invariant_step e s a s1 HI Hs) Hr) as [HI' Hm].
    pose proof (measure_step e s a s1 (inv_control e s HI) Hs).
    split; [ exact HI' | cbn [length]; lia ].
Qed.

Lemma run_from_initial e sched s :
  run e sched (initial e) = Some s ->
  invariant e s /\ (length sched <= 150)%nat.
Proof.
  intros Hr.
  destruct (run_invariant e sched _ _ (invariant_initial e) Hr) as [HI Hm].
  split; [ exact HI | ].
  change (measure (initial e)) with 150%nat in Hm. lia.
Qed.

Lemma terminal_or_step e s :
  terminal e s \/ exists a s', step e a s = Some s'.
Proof.
  destruct (step e Parent s) as [s'|] eqn:HP; [ right; eauto | ].
  destruct (step e Child1 s) as [s'|] eqn:H1; [ right; eauto | ].
  destruct (step e Child2 s) as [s'|] eqn:H2; [ right; eauto | ].
  left. intros []; assumption.
Qed.

(** Every state of a run can be continued to a state in which no process
    can move. *)
Lemma run_completes e :
  forall n s, control_inv e s -> (measure s <= n)%nat ->
  exists rest s', run e rest s = Some s' /\ terminal e s'.
Proof.
  induction n as [|n IH]; intros s HC Hm;
    destruct (terminal_or_step e s) as [HT|(a & s1 & Hs)].
  - exists [], s. split; [ reflexivity | exact HT ].
  - pose proof (measure_step e s a s1 HC Hs). lia.
  - exists [], s. split; [ reflexivity | exact HT ].
  - pose proof (measure_step e s a s1 HC Hs) as Hlt.
    destruct (IH s1 (control_inv_step e s a s1 HC Hs)) as (rest & s' & Hr & Ht);
      [ lia | ].
    exists (a :: rest), s'. cbn [run]. rewrite Hs. split; assumption.
Qed.

(** ** Who starts the children *)

Lemma writer_started_by e s a s' :
  control_inv e s -> step e a s = Some s' ->
  child1 s = None -> child1 s' <> None ->
  a = Parent /\ pc (parent s) = L94.
Proof.
  intros HC Hs Hn Hn'.
  step_cases e s a Hs.
  all: reduce_state; try discriminate Hn; try congruence.
  all: destruct HC; reduce_state; use_premises; reduce_state; use_premises.
  all: split; reflexivity.
Qed.

Lemma reader_started_by e s a s' :
  control_inv e s -> step e a s = Some s' ->
  child2 s = None -> child2 s' <> None ->
  a = Parent /\ pc (parent s) = L132.
Proof.
  intros HC Hs Hn Hn'.
  step_cases e s a Hs.
  all: reduce_state; try discriminate Hn; try congruence.
  all: destruct HC; reduce_state; use_premises; reduce_state; use_premises.
  all: split; reflexivity.
Qed.


(** ** The C library functions *)

Lemma snprintf_length buf size out :
  (size <= length buf)%nat -> length (snprintf buf size out) = length buf.
Proof.
  destruct size as [|room]; [ reflexivity | ].
  intros H. unfold snprintf. cbv zeta.
  rewrite length_app, length_skipn, length_app, length_firstn.
  cbn [length]. lia.
Qed.

Lemma snprintf_stored_le size out : (snprintf_stored size out <= size)%nat.
Proof.
  destruct size as [|room]; cbn [snprintf_stored]; [ lia | ].
  rewrite length_firstn. lia.
Qed.

Lemma snprintf_terminator buf room out :
  nth_error (snprintf buf (S room) out) (snprintf_stored (S room) out - 1)
  = Some x00.
Proof.
  unfold snprintf, snprintf_stored. cbv zeta.
  rewrite <- app_assoc. cbn [app].
  rewrite nth_error_app2 by lia.
  replace (S (length (firstn room out)) - 1 - length (firstn room out))%nat
    with 0%nat by lia.
  reflexivity.
Qed.

Lemma snprintf_tail buf size out :
  skipn (snprintf_stored size out) (snprintf buf size out)
  = skipn (snprintf_stored size out) buf.
Proof.
  destruct size as [|room]; [ reflexivity | ].
  unfold snprintf, snprintf_stored. cbv zeta.
  assert (Hl : length (firstn room out ++ [x00]) = S (length (firstn room out)))
    by (rewrite length_app; cbn [length]; lia).
  rewrite Hl, skipn_app, Hl, Nat.sub_diag.
  rewrite <- Hl, skipn_all. reflexivity.
Qed.

Lemma c_str_terminated out rest :
  no_zero out = true -> c_str (out ++ x00 :: rest) = out.
Proof.
  induction out as [|b out IH]; cbn [no_zero forallb app c_str]; intros H.
  - reflexivity.
  - apply andb_prop in H as [Hb Ho].
    destruct (Byte.eqb b x00); [ discriminate Hb | ].
    f_equal. apply IH. exact Ho.
Qed.

Lemma c_str_snprintf buf room out :
  no_zero out = true -> (length out <= room)%nat ->
  c_str (snprintf buf (S room) out) = out.
Proof.
  intros Hz Hl. unfold snprintf. cbv zeta.
  rewrite firstn_all2 by exact Hl.
  rewrite <- app_assoc. cbn [app]. apply c_str_terminated. exact Hz.
Qed.

Lemma firstn_memset buf c n : firstn n (memset buf c n) = repeat c n.
Proof.
  unfold memset.
  rewrite firstn_app, repeat_length, Nat.sub_diag, firstn_O, app_nil_r.
  apply firstn_all2. rewrite repeat_length. lia.
Qed.

Lemma writer_text_shape i :
  1 <= i <= 5 ->
  no_zero (writer_text i) = true /\ length (writer_text i) = 42%nat.
Proof.
  intros H.
  assert (Hi : i = 1 \/ i = 2 \/ i = 3 \/ i = 4 \/ i = 5) by lia.
  destruct Hi as [-> | [-> | [-> | [-> | ->]]]]; split; reflexivity.
Qed.

(** C10: in every writer iteration [i] of 1..5, [snprintf] stores at most
    [MAX_MSG_LEN] bytes, terminator included, into a buffer of [MAX_MSG_LEN]
    bytes: the buffer keeps its length, the last byte stored is the zero
    terminator, the bytes behind it are untouched, and the text read back
    from the buffer is the whole formatted message. *)
Theorem text_write_in_bounds (i : Z) (buf : list byte) :
  1 <= i <= 5 ->
  length buf = MAX_MSG_LEN ->
  let stored := snprintf_stored MAX_MSG_LEN (writer_text i) in
  let t := snprintf buf MAX_MSG_LEN (writer_text i) in
  (stored <= MAX_MSG_LEN)%nat
  /\ length t = MAX_MSG_LEN
  /\ nth_error t (stored - 1) = Some x00
  /\ skipn stored t = skipn stored buf
  /\ c_str t = writer_text i.
Proof.
  intros Hi Hb stored t. subst stored t.
  destruct (writer_text_shape i Hi) as [Hz Hl].
  split; [ apply snprintf_stored_le | ].
  split; [ rewrite snprintf_length; [ exact Hb | rewrite Hb; apply Nat.le_refl ] | ].
  split; [ apply snprintf_terminator | ].
  split; [ apply snprintf_tail | ].
  apply c_str_snprintf; [ exact Hz | rewrite Hl; unfold MAX_MSG_LEN; lia ].
Qed.

Lemma text_write_in_bounds_witness :
  c_str (snprintf (repeat x00 MAX_MSG_LEN) MAX_MSG_LEN (writer_text 3))
  = writer_text 3.
Proof.
  apply (text_write_in_bounds 3 (repeat x00 MAX_MSG_LEN)).
  - lia.
  - reflexivity.
Defined.

(** ** Layout *)

(** C9: the record, padding included, is no larger than the region of
    [SHM_SIZE] bytes, for every size of [int] from 1 to 16 bytes; it is
    never smaller than its three members together. *)
Theorem record_fits_region (sizeof_int : Z) :
  1 <= sizeof_int <= 16 ->
  Z.of_nat MAX_MSG_LEN + 2 * sizeof_int <= sizeof_SharedMessage sizeof_int
  /\ sizeof_SharedMessage sizeof_int <= SHM_SIZE.
Proof.
  intros H.
  assert (Hn : exists k, (k < 16)%nat /\ sizeof_int = 1 + Z.of_nat k)
    by (exists (Z.to_nat (sizeof_int - 1)); lia).
  destruct Hn as (k & Hk & ->).
  do 16 (destruct k as [|k]; [ split; apply Z.leb_le; reflexivity | ]).
  lia.
Qed.

Lemma record_fits_region_witness :
  Z.of_nat MAX_MSG_LEN + 2 * 4 <= sizeof_SharedMessage 4
  /\ sizeof_SharedMessage 4 <= SHM_SIZE.
Proof. apply (record_fits_region 4). lia. Defined.

Example sizeof_SharedMessage_4 : sizeof_SharedMessage 4 = 264.
Proof. reflexivity. Qed.

(** ** The life of the shared record *)

Lemma between_weaken lo hi lo' hi' l :
  between lo hi l = true -> (lo' <= lo)%nat -> (hi <= hi')%nat ->
  between lo' hi' l = true.
Proof.
  unfold between. intros H H1 H2.
  apply andb_prop in H as [Ha Hb].
  apply Nat.leb_le in Ha. apply Nat.leb_le in Hb.
  apply andb_true_intro. split; apply Nat.leb_le; lia.
Qed.

(** C7: the step that creates child 1 is taken while no child exists and
    the record holds [message_id = 0], [ready = 0] and a zeroed text buffer;
    the step that creates child 2 is taken after child 1 was created, with
    [ready] still 0; and the shared-memory object is unlinked only when both
    children have exited. *)
Theorem slot_lifecycle e sched s :
  run e sched (initial e) = Some s ->
  (forall a s', step e a s = Some s' -> child1 s = None -> child1 s' <> None ->
     child2 s = None
     /\ message_id (shm s) = 0 /\ ready (shm s) = 0
     /\ firstn MAX_MSG_LEN (text_message (shm s)) = repeat x00 MAX_MSG_LEN)
  /\ (forall a s', step e a s = Some s' -> child2 s = None -> child2 s' <> None ->
     child1 s <> None /\ ready (shm s) = 0)
  /\ (shm_object s = Unlinked ->
     has_exited (child1 s) = true /\ has_exited (child2 s) = true).
Proof.
  intros Hr. destruct (run_from_initial e sched s Hr) as [[HC HD _ _] _].
  split; [ | split ].
  - intros a s' Hs Hn Hn'.
    destruct (writer_started_by e s a s' HC Hs Hn Hn') as [_ Hpc].
    assert (Hslot : shm s = empty_slot e)
      by (apply (di_empty e s HD Hn); rewrite Hpc; reflexivity).
    split; [ apply (ci_no_child2 e s HC); rewrite Hpc; reflexivity | ].
    rewrite Hslot. cbn [empty_slot message_id ready text_message].
    split; [ reflexivity | split; [ reflexivity | apply firstn_memset ] ].
  - intros a s' Hs Hn Hn'.
    destruct (reader_started_by e s a s' HC Hs Hn Hn') as [_ Hpc].
    assert (H1 : is_some (child1 s) = true).
    { apply (ci_child1 e s HC); [ | apply (ci_fork1 e s HC) ];
        rewrite Hpc; reflexivity. }
    split; [ | apply (di_ready_started e s HD H1) ].
    intros Hnone. rewrite Hnone in H1. discriminate H1.
  - intros Hu. pose proof (ci_object e s HC Hu) as Hb.
    split.
    + apply (ci_joined1 e s HC). apply (between_weaken _ _ _ _ _ Hb); lia.
    + apply (ci_joined2 e s HC). apply (between_weaken _ _ _ _ _ Hb); lia.
Qed.

Lemma terminalb_terminal e s : terminalb e s = true -> terminal e s.
Proof.
  unfold terminalb. intros H a.
  destruct (step e Parent s) eqn:HP; [ discriminate H | ].
  destruct (step e Child1 s) eqn:H1; [ discriminate H | ].
  destruct (step e Child2 s) eqn:H2; [ discriminate H | ].
  destruct a; assumption.
Qed.

Lemma slot_lifecycle_witness :
  (message_id (shm (state_after (repeat Parent 11))) = 0
   /\ ready (shm (state_after (repeat Parent 11))) = 0
   /\ firstn MAX_MSG_LEN (text_message (shm (state_after (repeat Parent 11))))
      = repeat x00 MAX_MSG_LEN)
  /\ (has_exited (child1 (state_after writer_first)) = true
      /\ has_exited (child2 (state_after writer_first)) = true).
Proof.
  split.
  - destruct (slot_lifecycle env0 (repeat Parent 11)
                (state_after (repeat Parent 11))) as [H _].
    + (vm_compute; reflexivity).
    + apply (H Parent (state_after (repeat Parent 12))).
      * (vm_compute; reflexivity).
      * (vm_compute; reflexivity).
      * (vm_compute; discriminate).
  - destruct (slot_lifecycle env0 writer_first (state_after writer_first))
      as (_ & _ & H).
    + (vm_compute; reflexivity).
    + (apply H; vm_compute; reflexivity).
Defined.

(** ** Termination *)

(** C6: when the whole setup succeeds, a run never has more than 150
    statements, it can always be continued until no process can move, and in
    every state in which no process can move child 1 has exited after exactly
    5 loop bodies, child 2 has exited after exactly 5 loop bodies, and the
    parent, having passed both [waitpid] calls, has returned 0. *)
Theorem roles_terminate e sched s :
  first_failure e = None ->
  run e sched (initial e) = Some s ->
  (length sched <= 150)%nat
  /\ (exists rest s', run e rest s = Some s' /\ terminal e s')
  /\ (terminal e s ->
      status_of (child1 s) = Some 0
      /\ iterations Child1 (log s) = 5%nat
      /\ status_of (child2 s) = Some 0
      /\ iterations Child2 (log s) = 5%nat
      /\ exit_status (parent s) = Some 0).
Proof.
  intros Hok Hr.
  destruct (run_from_initial e sched s Hr) as [[HC HD HN HE] Hlen].
  split; [ exact Hlen | ].
  split; [ apply (run_completes e (measure s) s HC (Nat.le_refl _)) | ].
  intros HT.
  destruct (no_deadlock e s HC HT) as (Hp & H1 & H2).
  unfold exited in Hp.
  destruct (pc (parent s)) eqn:Hpc; try discriminate Hp.
  pose proof (HE _ Hpc) as Hend. unfold ended_as in Hend.
  rewrite Hok in Hend. subst.
  assert (Hf1 : is_ok (e_fork1 e) = true)
    by (apply (ci_fork1 e s HC); rewrite Hpc; reflexivity).
  assert (Hf2 : is_ok (e_fork2 e) = true)
    by (apply (ci_fork2 e s HC); rewrite Hpc; reflexivity).
  assert (Hc1 : is_some (child1 s) = true)
    by (apply (ci_child1 e s HC); [ rewrite Hpc; reflexivity | exact Hf1 ]).
  assert (Hc2 : is_some (child2 s) = true)
    by (apply (ci_child2 e s HC); [ rewrite Hpc; reflexivity | exact Hf2 ]).
  destruct (child1 s) as [c1|] eqn:E1; [ | discriminate Hc1 ].
  destruct (child2 s) as [c2|] eqn:E2; [ | discriminate Hc2 ].
  pose proof (H1 c1 eq_refl) as Hx1. pose proof (H2 c2 eq_refl) as Hx2.
  destruct (ci_writer e s HC c1 E1) as [Hw _].
  destruct (ci_reader e s HC c2 E2) as [Hrd _].
  pose proof (cn_writer s HN c1 E1) as Hn1.
  pose proof (cn_reader s HN c2 E2) as Hn2.
  unfold exited in Hx1, Hx2. unfold status_of, exit_status. rewrite Hpc.
  destruct (pc c1); try discriminate Hx1.
  destruct (pc c2); try discriminate Hx2.
  cbn [writer_line reader_line writer_progress reader_progress] in *.
  apply Z.eqb_eq in Hw. apply Z.eqb_eq in Hrd. subst.
  repeat split; assumption.
Qed.

Lemma roles_terminate_witness :
  iterations Child1 (log (state_after writer_first)) = 5%nat
  /\ iterations Child2 (log (state_after writer_first)) = 5%nat.
Proof.
  destruct (roles_terminate env0 writer_first (state_after writer_first))
    as (_ & _ & H).
  - (vm_compute; reflexivity).
  - (vm_compute; reflexivity).
  - destruct H as (_ & Hw & _ & Hr & _).
    + apply terminalb_terminal. vm_compute. reflexivity.
    + split; assumption.
Defined.

(** ** Exit status *)

(** C8: a run never has more than 150 statements and can always be
    continued until no process can move; once no process can move, the parent
    has returned 0 if every call of the setup succeeded, and otherwise it has
    exited with status 1 after [perror] reported the first failing call
    ([shm_open], [ftruncate], [mmap] or [fork]) with its error number. *)
Theorem exit_status_of_main e sched s :
  run e sched (initial e) = Some s ->
  (length sched <= 150)%nat
  /\ (exists rest s', run e rest s = Some s' /\ terminal e s')
  /\ (terminal e s ->
      match first_failure e with
      | None => exit_status (parent s) = Some 0
      | Some (op, n) =>
          exit_status (parent s) = Some 1 /\ In (Perror Parent op n) (log s)
      end).
Proof.
  intros Hr.
  destruct (run_from_initial e sched s Hr) as [[HC HD HN HE] Hlen].
  split; [ exact Hlen | ].
  split; [ apply (run_completes e (measure s) s HC (Nat.le_refl _)) | ].
  intros HT.
  destruct (no_deadlock e s HC HT) as (Hp & _ & _).
  unfold exited in Hp. unfold exit_status.
  destruct (pc (parent s)) eqn:Hpc; try discriminate Hp.
  pose proof (HE _ Hpc) as Hend. unfold ended_as in Hend.
  destruct (first_failure e) as [[op n]|].
  - destruct Hend as [-> Hin]. split; [ reflexivity | exact Hin ].
  - rewrite Hend. reflexivity.
Qed.

Lemma exit_status_of_main_witness :
  exit_status (parent (run_state env_mmap_fails (repeat Parent 5))) = Some 1
  /\ In (Perror Parent "mmap" 12)
        (log (run_state env_mmap_fails (repeat Parent 5))).
Proof.
  destruct (exit_status_of_main env_mmap_fails (repeat Parent 5)
              (run_state env_mmap_fails (repeat Parent 5))) as (_ & _ & H).
  - vm_compute. reflexivity.
  - apply H. apply terminalb_terminal. vm_compute. reflexivity.
Defined.

(** ** What the missing handshake allows

    Lines 106-109, 119, 144-146 and 152-153 of the source are comments that
    describe the waits and the flag updates; there is no statement behind
    them.  The lemmas below hold for every run; the theorems after them
    evaluate full runs of [env0]. *)

Lemma run_unsynchronised e sched s :
  run e sched (initial e) = Some s -> Forall unsynchronised (log s).
Proof.
  intros Hr. destruct (run_from_initial e sched s Hr) as [[_ HD _ _] _].
  exact (di_log e s HD).
Qed.

(** Every read of the reader happens while [ready] is 0. *)
Lemma reader_never_sees_full e sched s :
  run e sched (initial e) = Some s ->
  Forall (fun flag => flag = 0) (reader_flags (log s)).
Proof.
  intros Hr. pose proof (run_unsynchronised e sched s Hr) as HF.
  induction HF as [|ev l Hev _ IH]; [ constructor | ].
  unfold reader_flags. cbn [flat_map]. apply Forall_app. split; [ | exact IH ].
  destruct ev as [a f v flag|a f v flag| | | | ]; try constructor.
  destruct a; try constructor.
  destruct f; constructor; try constructor. exact Hev.
Qed.

(** The only store to [ready] is the parent's initialisation. *)
Lemma ready_only_initialised e sched s :
  run e sched (initial e) = Some s ->
  Forall (fun av => av = (Parent, AInt 0)) (ready_stores (log s)).
Proof.
  intros Hr. pose proof (run_unsynchronised e sched s Hr) as HF.
  induction HF as [|ev l Hev _ IH]; [ constructor | ].
  unfold ready_stores. cbn [flat_map]. apply Forall_app. split; [ | exact IH ].
  destruct ev as [a f v flag|a f v flag| | | | ]; try constructor.
  destruct f; try constructor; [ | constructor ].
  destruct a; cbn [unsynchronised] in Hev.
  - rewrite Hev. reflexivity.
  - destruct Hev as [Hf _]. exfalso. apply Hf. reflexivity.
  - destruct Hev as [Hf _]. exfalso. apply Hf. reflexivity.
Qed.

(** C1, evaluated on the schedule [writer_first] of [env0]: the run is
    complete, the five writes are the events 8, 14, 20, 26 and 32 of the
    log and the five reads are the events 41, 45, 49, 53 and 57, so the
    writes of messages 2 to 5 precede the read of message 1; the reader reads
    message 105 five times and never sees messages 101 to 104. *)
Theorem alternation_not_enforced :
  exists s,
    full_run writer_first = Some s
    /\ terminalb env0 s = true
    /\ write_times (log s) = [8; 14; 20; 26; 32]%nat
    /\ read_times (log s) = [41; 45; 49; 53; 57]%nat
    /\ alternates (log s) = false
    /\ reader_ids (log s) = [105; 105; 105; 105; 105].
Proof.
  exists (state_after writer_first).
  repeat apply conj; vm_compute; reflexivity.
Qed.

(** C2, evaluated on the schedule [reader_first] of [env0]: each of the five
    reads of the reader happens while [ready] is 0, and [ready] is 0 at the
    end of the run. *)
Theorem reader_reads_while_empty :
  exists s,
    full_run reader_first = Some s
    /\ terminalb env0 s = true
    /\ reader_flags (log s) = [0; 0; 0; 0; 0]
    /\ ready (shm s) = 0.
Proof.
  exists (state_after reader_first).
  repeat apply conj; vm_compute; reflexivity.
Qed.

(** C3, evaluated on the schedule [writer_first] of [env0]: the writer
    stores all five messages, yet the only store to [ready] in the whole run
    is the parent's initialisation with 0, and [ready] is 0 at the end. *)
Theorem flag_never_handed_over :
  exists s,
    full_run writer_first = Some s
    /\ terminalb env0 s = true
    /\ writer_ids (log s) = [101; 102; 103; 104; 105]
    /\ ready_stores (log s) = [(Parent, AInt 0)]
    /\ ready (shm s) = 0.
Proof.
  exists (state_after writer_first).
  repeat apply conj; vm_compute; reflexivity.
Qed.

(** C4, evaluated on the schedule [reader_first] of [env0]: the reader
    observes the ids 0, 0, 0, 0, 0 while the writer stores 101 to 105. *)
Theorem reader_ids_not_increasing :
  exists s,
    full_run reader_first = Some s
    /\ terminalb env0 s = true
    /\ reader_ids (log s) = [0; 0; 0; 0; 0]
    /\ writer_ids (log s) = [101; 102; 103; 104; 105].
Proof.
  exists (state_after reader_first).
  repeat apply conj; vm_compute; reflexivity.
Qed.

(** C5, evaluated on the schedule [writer_midway] of [env0]: the writer
    stores the texts of iterations 1 to 5, the reader reads the text of
    iteration 1 five times, each time together with the id 102 of the
    second message. *)
Theorem reader_text_differs :
  exists s,
    full_run writer_midway = Some s
    /\ terminalb env0 s = true
    /\ writer_texts (log s) = map writer_text [1; 2; 3; 4; 5]
    /\ reader_texts (log s) = repeat (writer_text 1) 5
    /\ reader_ids (log s) = [102; 102; 102; 102; 102].
Proof.
  exists (state_after writer_midway).
  repeat apply conj; vm_compute; reflexivity.
Qed.

(** * Beyond the handshake: what holds in every run *)

(** ** What the reader can see *)

Lemma writer_pairs_app l l' :
  writer_pairs (l ++ l') = (writer_pairs l ++ writer_pairs l')%list.
Proof. apply flat_map_app. Qed.

Lemma reader_pairs_app l l' :
  reader_pairs (l ++ l') = (reader_pairs l ++ reader_pairs l')%list.
Proof. apply flat_map_app. Qed.

Lemma reader_ids_app l l' :
  reader_ids (l ++ l') = (reader_ids l ++ reader_ids l')%list.
Proof. apply flat_map_app. Qed.

Lemma nondecreasing_raise l a b :
  nondecreasing (l ++ [a]) -> a <= b -> nondecreasing (l ++ [b]).
Proof.
  induction l as [|x [|y l] IH]; cbn [app nondecreasing]; intros H Hab.
  - exact I.
  - split; [ lia | exact I ].
  - destruct H as [Hxy H]. split; [ exact Hxy | ]. apply IH; assumption.
Qed.

Lemma nondecreasing_again l a :
  nondecreasing (l ++ [a]) -> nondecreasing ((l ++ [a]) ++ [a]).
Proof.
  induction l as [|x [|y l] IH]; cbn [app nondecreasing]; intros H.
  - split; [ lia | exact I ].
  - destruct H as [Hxa _]. split; [ exact Hxa | ]. split; [ lia | exact I ].
  - destruct H as [Hxy H]. split; [ exact Hxy | ]. apply IH. exact H.
Qed.

Lemma nondecreasing_front l a :
  nondecreasing (l ++ [a]) -> nondecreasing l.
Proof.
  induction l as [|x [|y l] IH]; cbn [app nondecreasing]; intros H.
  - exact I.
  - exact I.
  - destruct H as [Hxy H]. split; [ exact Hxy | ]. apply IH. exact H.
Qed.

Lemma c_str_memset buf n : c_str (memset buf x00 (S n)) = [].
Proof. reflexivity. Qed.

Lemma slot_observation l i n m :
  writer_line l = true -> writer_progress l i n -> writer_slot l i m ->
  observation_ok (message_id m, c_str (text_message m)).
Proof.
  unfold observation_ok, id_of, text_of. cbn [fst snd].
  destruct l; cbn [writer_line writer_progress writer_slot];
    intros Hl Hp Hs; try discriminate Hl.
  all: destruct Hs as [Hid Htx]; rewrite Hid, Htx.
  all: try (exists 0; split; [ lia | split; [ reflexivity | left; reflexivity ] ]).
  all: try (exists 5; split; [ lia | split; [ reflexivity | left; reflexivity ] ]).
  - exists (i - 1). split; [ lia | split; [ reflexivity | left; reflexivity ] ].
  - exists (i - 1). split; [ lia | split; [ reflexivity | left; reflexivity ] ].
  - exists (i - 1). split; [ lia | split; [ reflexivity | right; lia ] ].
  - exists i. destruct (Z.eqb_spec i 0); [ lia | ].
    split; [ lia | split; [ reflexivity | left; reflexivity ] ].
  - exists i. destruct (Z.eqb_spec i 0); [ lia | ].
    split; [ lia | split; [ reflexivity | left; reflexivity ] ].
  - exists i. destruct (Z.eqb_spec i 0); [ lia | ].
    split; [ lia | split; [ reflexivity | left; reflexivity ] ].
Qed.

Lemma id_of_le i : 1 <= i -> id_of (i - 1) <= 100 + i.
Proof. unfold id_of. destruct (Z.eqb_spec (i - 1) 0); lia. Qed.

Lemma slot_inv_initial e : slot_inv (initial e).
Proof.
  constructor; cbn; intros; try discriminate; auto.
Qed.

Ltac log_events :=
  rewrite ?writer_pairs_app, ?reader_pairs_app, ?reader_ids_app in *;
  cbn [writer_pairs reader_pairs reader_ids flat_map app] in *;
  rewrite ?app_nil_r in *.

Ltac rewrite_known :=
  repeat match goal with
         | H : ?x = _ |- context [?x] => rewrite H
         end.

Ltac split_iteration :=
  match goal with
  | H : 1 <= ?i |- _ =>
      assert (i = 1 \/ i = 2 \/ i = 3 \/ i = 4 \/ i = 5 \/ i = 6) as Hcase by lia;
      destruct Hcase as [-> | [-> | [-> | [-> | [-> | ->]]]]]; try lia
  end.

Lemma slot_inv_step e s a s' :
  control_inv e s -> data_inv e s -> count_inv s -> slot_inv s ->
  step e a s = Some s' -> slot_inv s'.
Proof.
  intros HC HD HN HI Hs.
  step_cases e s a Hs.
  all: destruct HC, HD, HN, HI; reduce_state; use_premises.
  all: constructor; reduce_state; intros; use_premises; subst; reduce_state;
       use_premises; log_events;
       cbn [writer_slot writer_printed reader_printed
            writer_progress reader_progress] in *;
       use_premises.
  all: try solve [ assumption | reflexivity | split; assumption
                 | split; reflexivity ].
  all: compare_to_prop; unfold set_message_id, set_text_message;
       cbn [message_id text_message].
  all: lazymatch goal with
       | |- nondecreasing ((_ ++ [?m]) ++ [?m]) =>
           apply nondecreasing_again; assumption
       | |- nondecreasing (reader_ids _ ++ [100 + ?i]) =>
           eapply nondecreasing_raise; [ eassumption | ];
           match goal with
           | H : message_id _ = id_of _ |- _ => rewrite H
           end; apply id_of_le; assumption
       | |- nondecreasing (reader_ids _ ++ [0]) =>
           match goal with
           | H : reader_ids _ = [] |- _ => rewrite H
           end; exact I
       | |- map fst _ = _ =>
           rewrite map_app; cbn [map fst]; congruence
       | |- length _ = _ =>
           rewrite ?length_app; cbn [length]; try lia
       | |- Forall observation_ok _ =>
           apply Forall_app; split; [ assumption | ];
           apply Forall_cons; [ | apply Forall_nil ];
           eapply slot_observation; eassumption
       | _ => idtac
       end.
  all: use_premises; try split_iteration.
  all: try split; rewrite_known; try reflexivity.
  all: exfalso; lia.
Qed.

(** ** The object and the children *)

Lemma resource_inv_initial e : resource_inv e (initial e).
Proof.
  constructor; cbn; intros; try discriminate; auto.
Qed.

Lemma resource_inv_step e s a s' :
  control_inv e s -> resource_inv e s -> step e a s = Some s' ->
  resource_inv e s'.
Proof.
  intros HC HI Hs.
  step_cases e s a Hs.
  all: destruct HC, HI; unfold setup_ok, expected_object in *;
       reduce_state; use_premises.
  all: constructor; reduce_state; cbn [Nat.eqb] in *; finish.
  all: unfold setup_ok, expected_object in *; split_env; reduce_state;
       cbn [Nat.eqb] in *; use_premises; compare_to_prop;
       unfold MAP_FAILED in *.
  all: try solve [ reflexivity | assumption | lia | auto | split; reflexivity
                 | apply in_or_app; left; auto
                 | apply in_or_app; right; left; reflexivity ].
Qed.

(** ** The text buffer *)

Lemma memset_length buf c n :
  (n <= length buf)%nat -> length (memset buf c n) = length buf.
Proof.
  intros H. unfold memset. rewrite length_app, repeat_length, length_skipn. lia.
Qed.

Lemma memset_full buf c n : length buf = n -> memset buf c n = repeat c n.
Proof.
  intros H. unfold memset. rewrite skipn_all2 by lia. apply app_nil_r.
Qed.

Lemma writer_reach i :
  1 <= i <= 5 -> snprintf_stored MAX_MSG_LEN (writer_text i) = WRITER_REACH.
Proof.
  intros H.
  assert (Hi : i = 1 \/ i = 2 \/ i = 3 \/ i = 4 \/ i = 5) by lia.
  destruct Hi as [-> | [-> | [-> | [-> | ->]]]]; reflexivity.
Qed.

Lemma buffer_inv_initial e : region_wf e -> buffer_inv (initial e).
Proof.
  intros H. constructor; cbn; intros; try discriminate; auto.
Qed.

Lemma buffer_inv_step e s a s' :
  region_wf e ->
  control_inv e s -> data_inv e s -> count_inv s -> buffer_inv s ->
  step e a s = Some s' -> buffer_inv s'.
Proof.
  intros HW HC HD HN HI Hs. unfold region_wf in HW.
  step_cases e s a Hs.
  all: destruct HC, HD, HN, HI; reduce_state; use_premises.
  all: constructor; reduce_state; intros; use_premises; subst; reduce_state;
       use_premises; cbn [writer_progress] in *; use_premises.
  all: try solve [ assumption | discriminate ].
  all: lazymatch goal with
       | |- length (snprintf _ _ _) = _ =>
           rewrite snprintf_length; [ assumption | ];
           match goal with H : length _ = MAX_MSG_LEN |- _ => rewrite H end;
           apply Nat.le_refl
       | |- skipn _ (snprintf _ _ (writer_text ?i)) = _ =>
           rewrite <- (writer_reach i) at 1 by lia;
           rewrite snprintf_tail, (writer_reach i) by lia; assumption
       | |- length (memset _ _ _) = _ =>
           rewrite memset_length; [ assumption | ];
           match goal with H : length _ = MAX_MSG_LEN |- _ => rewrite H end;
           apply Nat.le_refl
       | |- skipn _ (text_message (empty_slot _)) = _ =>
           unfold empty_slot; reduce_state;
           rewrite (memset_full _ _ _ HW); reflexivity
       end.
Qed.

(** ** The further invariants along a run *)

Lemma run_preserves e (P : system -> Prop) :
  (forall s a s', P s -> step e a s = Some s' -> P s') ->
  forall sched s s', P s -> run e sched s = Some s' -> P s'.
Proof.
  intros Hstep. induction sched as [|a rest IH]; intros s s' HP Hr;
    cbn [run] in Hr.
  - apply some_eq in Hr. subst s'. exact HP.
  - destruct (step e a s) as [s1|] eqn:Hs; [ | discriminate Hr ].
    exact (IH s1 s' (Hstep s a s1 HP Hs) Hr).
Qed.

Lemma run_slot e sched s :
  run e sched (initial e) = Some s ->
  invariant e s /\ slot_inv s /\ resource_inv e s.
Proof.
  apply (run_preserves e
           (fun s => invariant e s /\ slot_inv s /\ resource_inv e s)).
  - intros s0 a s1 (HI & HS & HR) Hs.
    split; [ exact (invariant_step e s0 a s1 HI Hs) | ].
    destruct HI as [HC HD HN HE].
    split; [ exact (slot_inv_step e s0 a s1 HC HD HN HS Hs)
           | exact (resource_inv_step e s0 a s1 HC HR Hs) ].
  - split; [ apply invariant_initial | ].
    split; [ apply slot_inv_initial | apply resource_inv_initial ].
Qed.

Lemma run_buffer e sched s :
  region_wf e -> run e sched (initial e) = Some s -> buffer_inv s.
Proof.
  intros HW Hr.
  assert (H : invariant e s /\ buffer_inv s); [ | apply H ].
  revert Hr.
  apply (run_preserves e (fun s => invariant e s /\ buffer_inv s)).
  - intros s0 a s1 (HI & HB) Hs.
    split; [ exact (invariant_step e s0 a s1 HI Hs) | ].
    destruct HI as [HC HD HN HE].
    exact (buffer_inv_step e s0 a s1 HW HC HD HN HB Hs).
  - split; [ apply invariant_initial | apply buffer_inv_initial; exact HW ].
Qed.

Lemma wrote_upto_prefix n :
  (n <= 5)%nat -> wrote_upto n = firstn n five_messages.
Proof.
  intros H. do 6 (destruct n as [|n]; [ reflexivity | ]). lia.
Qed.

Lemma writer_printed_le l i n :
  writer_line l = true -> writer_progress l i n ->
  (Z.to_nat (writer_printed l i) <= 5)%nat.
Proof.
  destruct l; cbn [writer_line writer_progress writer_printed];
    intros Hl Hp; try discriminate Hl; lia.
Qed.


(** ** What every schedule has in common *)

(** X2: whatever the schedule, the [WROTE] lines child 1 has printed are the
    first [n] of its five messages, each id with its own text; once child 1
    has exited they are all five. *)
Theorem writer_output_fixed e sched s :
  run e sched (initial e) = Some s ->
  (exists n, (n <= 5)%nat /\ writer_pairs (log s) = firstn n five_messages)
  /\ (has_exited (child1 s) = true -> writer_pairs (log s) = five_messages).
Proof.
  intros Hr. destruct (run_slot e sched s Hr) as ([HC _ HN _] & HS & _).
  destruct (child1 s) as [c|] eqn:E1.
  - destruct (ci_writer e s HC c E1) as [Hl _].
    pose proof (cn_writer s HN c E1) as Hp.
    pose proof (sl_printed s HS c E1) as Hw.
    pose proof (writer_printed_le _ _ _ Hl Hp) as Hle.
    split.
    + exists (Z.to_nat (writer_printed (pc c) (i c))).
      split; [ exact Hle | ]. rewrite Hw. apply wrote_upto_prefix. exact Hle.
    + cbn [has_exited]. unfold exited. intros Hx. rewrite Hw.
      destruct (pc c); try discriminate Hx. reflexivity.
  - split.
    + exists 0%nat. split; [ lia | ]. apply (sl_fresh s HS E1).
    + cbn [has_exited]. intros Hx. discriminate Hx.
Qed.

Lemma writer_output_fixed_witness :
  writer_pairs (log (state_after reader_first)) = five_messages.
Proof.
  destruct (writer_output_fixed env0 reader_first (state_after reader_first))
    as [_ H].
  - vm_compute. reflexivity.
  - apply H. vm_compute. reflexivity.
Defined.



(** X4: whatever the schedule, the ids child 2 reads, which are the ids on
    its [READ] lines, never decrease. *)
Theorem reader_ids_never_decrease e sched s :
  run e sched (initial e) = Some s ->
  map fst (reader_pairs (log s)) = reader_ids (log s)
  /\ nondecreasing (reader_ids (log s)).
Proof.
  intros Hr. destruct (run_slot e sched s Hr) as (_ & HS & _).
  split; [ exact (sl_link s HS) | ].
  exact (nondecreasing_front _ _ (sl_ascending s HS)).
Qed.

Lemma reader_ids_never_decrease_witness :
  nondecreasing (reader_ids (log (state_after writer_midway))).
Proof.
  destruct (reader_ids_never_decrease env0 writer_midway
              (state_after writer_midway)) as [_ H].
  - vm_compute. reflexivity.
  - exact H.
Defined.

(** X5: once child 1 has exited the record holds its last message for
    good: id 105, the text of iteration 5, and [ready] still 0. *)
Theorem last_message_stays e sched s :
  run e sched (initial e) = Some s ->
  has_exited (child1 s) = true ->
  message_id (shm s) = 105
  /\ c_str (text_message (shm s)) = writer_text 5
  /\ ready (shm s) = 0.
Proof.
  intros Hr Hx. destruct (run_slot e sched s Hr) as ([_ HD _ _] & HS & _).
  destruct (child1 s) as [c|] eqn:E1; [ | discriminate Hx ].
  pose proof (sl_slot s HS c E1) as Hslot.
  assert (Hready : ready (shm s) = 0)
    by (apply (di_ready_started e s HD); rewrite E1; reflexivity).
  cbn [has_exited] in Hx. unfold exited in Hx.
  destruct (pc c); try discriminate Hx.
  cbn [writer_slot] in Hslot. destruct Hslot as [Hid Htx].
  split; [ exact Hid | ]. split; [ exact Htx | exact Hready ].
Qed.

Lemma last_message_stays_witness :
  message_id (shm (state_after reader_first)) = 105.
Proof.
  destruct (last_message_stays env0 reader_first (state_after reader_first))
    as [H _].
  - vm_compute. reflexivity.
  - vm_compute. reflexivity.
  - exact H.
Defined.

(** ** The object, the children and the failure paths *)





(** X8: when [shm_open], [ftruncate] or [mmap] fails, no state of any run
    has a child and the bytes of the region are never changed; when the
    first [fork] fails no state of any run has a child either. *)
Theorem failed_setup_starts_nothing e sched s :
  run e sched (initial e) = Some s ->
  (setup_ok e = false -> shm s = e_region e)
  /\ (setup_ok e && is_ok (e_fork1 e) = false ->
      child1 s = None /\ child2 s = None
      /\ writer_pairs (log s) = [] /\ reader_pairs (log s) = []).
Proof.
  intros Hr. destruct (run_slot e sched s Hr) as ([HC _ _ _] & HS & HR).
  split; [ exact (rs_untouched e s HR) | ].
  intros Hfail.
  assert (H1 : child1 s = None).
  { destruct (child1 s) eqn:E1; [ | reflexivity ].
    pose proof (rs_born1 e s HR) as Hb. rewrite E1 in Hb.
    destruct (Hb eq_refl) as [Ha Hb']. rewrite Ha, Hb' in Hfail.
    discriminate Hfail. }
  pose proof (ci_order e s HC H1) as H2.
  split; [ exact H1 | ]. split; [ exact H2 | ].
  split; [ apply (sl_fresh s HS H1) | apply (sl_unread s HS H2) ].
Qed.

Lemma failed_setup_starts_nothing_witness :
  shm (run_state env_mmap_fails (repeat Parent 5)) = stale_region.
Proof.
  destruct (failed_setup_starts_nothing env_mmap_fails (repeat Parent 5)
              (run_state env_mmap_fails (repeat Parent 5))) as [H _].
  - vm_compute. reflexivity.
  - apply H. reflexivity.
Defined.

(** X9: when the parent is about to print that child 1 has completed
    (line 177), the exit of child 1 is already in the log; likewise for
    child 2 at line 180. *)
Theorem completion_follows_exit e sched s :
  run e sched (initial e) = Some s ->
  (pc (parent s) = L177 -> In (Exit Child1 0) (log s))
  /\ (pc (parent s) = L180 -> In (Exit Child2 0) (log s)).
Proof.
  intros Hr. destruct (run_slot e sched s Hr) as ([HC _ _ _] & _ & HR).
  split; intros Hpc.
  - apply (rs_exit1 e s HR). apply (ci_joined1 e s HC). rewrite Hpc. reflexivity.
  - apply (rs_exit2 e s HR). apply (ci_joined2 e s HC). rewrite Hpc. reflexivity.
Qed.

Lemma completion_follows_exit_witness :
  In (Exit Child1 0)
     (log (state_after (parent_setup ++ writer_run ++ reader_run ++ [Parent]))).
Proof.
  destruct (completion_follows_exit env0
              (parent_setup ++ writer_run ++ reader_run ++ [Parent])
              (state_after (parent_setup ++ writer_run ++ reader_run ++ [Parent])))
    as [H _].
  - vm_compute. reflexivity.
  - apply H. vm_compute. reflexivity.
Defined.

(** X10: when the region holds a text buffer of [MAX_MSG_LEN] bytes, the
    buffer has [MAX_MSG_LEN] bytes in every state of every run, and from the
    creation of child 1 on every byte from offset 43 to the end is zero: the
    writer never stores past the 42 bytes of its text and the terminator. *)
Theorem text_buffer_bounds e sched s :
  region_wf e ->
  run e sched (initial e) = Some s ->
  length (text_message (shm s)) = MAX_MSG_LEN
  /\ (is_some (child1 s) = true ->
      skipn WRITER_REACH (text_message (shm s))
      = repeat x00 (MAX_MSG_LEN - WRITER_REACH)).
Proof.
  intros HW Hr. destruct (run_buffer e sched s HW Hr) as [Hl Ht].
  split; assumption.
Qed.

Lemma text_buffer_bounds_witness :
  length (text_message (shm (state_after writer_first))) = MAX_MSG_LEN.
Proof.
  destruct (text_buffer_bounds env0 writer_first (state_after writer_first))
    as [H _].
  - reflexivity.
  - vm_compute. reflexivity.
  - exact H.
Defined.


(** X1: in every run the handshake is absent: the only store to [ready] is
    the parent's initialisation with 0, every read of child 2 happens while
    [ready] is 0, and [ready] is 0 in every state in which child 1 exists. *)
Theorem no_handshake_in_any_run e sched s :
  run e sched (initial e) = Some s ->
  Forall (fun av => av = (Parent, AInt 0)) (ready_stores (log s))
  /\ Forall (fun flag => flag = 0) (reader_flags (log s))
  /\ (is_some (child1 s) = true -> ready (shm s) = 0).
Proof.
  intros Hr.
  split; [ exact (ready_only_initialised e sched s Hr) | ].
  split; [ exact (reader_never_sees_full e sched s Hr) | ].
  destruct (run_from_initial e sched s Hr) as [[_ HD _ _] _].
  exact (di_ready_started e s HD).
Qed.

Lemma no_handshake_in_any_run_witness :
  ready_stores (log (state_after writer_midway)) = [(Parent, AInt 0)]
  /\ ready (shm (state_after writer_midway)) = 0.
Proof.
  destruct (no_handshake_in_any_run env0 writer_midway
              (state_after writer_midway)) as (_ & _ & H).
  - vm_compute. reflexivity.
  - split; [ vm_compute; reflexivity | ].
    apply H. vm_compute. reflexivity.
Defined.
